(** * Dam break past an obstacle (SPHysics case 5): configuration model

    A shallow embedding of [pysph/examples/sphysics/dambreak_sphysics.py]:
    the constants read from the INDAT parameter file when the module is
    loaded, the solver built by [create_solver] and the equation pipeline
    built by [create_equations].

    Python floats are IEEE binary64 numbers, modelled by Rocq's primitive
    floats; keyword arguments are modelled by finite maps from the keyword to
    the value passed.

    The file only configures the library: the equations, the integrators,
    the steppers and the solver are library code. Where a property depends on
    what they do, they are modelled from the specification; every such
    definition says so. *)

From Stdlib Require Import Floats ZArith.
From stdpp Require Import gmap strings list fin_maps.

#[local] Set Warnings "-inexact-float".
#[local] Open Scope Z_scope.

(** ** Python exceptions raised while the module is loaded *)

Inductive PyError : Set :=
| IndexError
| ZeroDivisionError
| TypeError.

Definition Py (A : Type) : Type := (PyError + A)%type.

#[global] Instance Py_ret : MRet Py := λ A x, inr x.

#[global] Instance Py_bind : MBind Py := λ A B k c,
  match c with
  | inl e => inl e
  | inr x => k x
  end.

(** [a[i]] on a one-dimensional array, for a literal index [i >= 0]. *)
Definition getitem (a : list float) (i : nat) : Py float :=
  match a !! i with
  | Some x => mret x
  | None => inl IndexError
  end.

(** [x / y] on Python floats: a zero divisor (of either sign) raises. *)
Definition truediv (x y : float) : Py float :=
  if (y =? 0)%float then inl ZeroDivisionError else mret (x / y)%float.

(** ** Module-level constants *)

(** problem dimensionality *)
Definition dim : Z := 3.

(** suggested initial time step and final time *)
Definition dt : float := 1e-5%float.
Definition tf : float := 2.0%float.

(** physical constants for the run loaded from SPHysics INDAT *)
Record Globals : Set := {
  H : float;
  B : float;
  gamma : float;
  eps : float;
  rho0 : float;
  alpha : float;
  beta : float;
  c0 : float
}.

(** The assignments of lines 40-48, in order; [indat] is the array that
    [numpy.loadtxt(INDAT)] returned. *)
Definition module_init (indat : list float) : Py Globals :=
  H_ ← getitem indat 10;
  B_ ← getitem indat 11;
  gamma_ ← getitem indat 12;
  eps_ ← getitem indat 14;
  rho0_ ← getitem indat 15;
  alpha_ ← getitem indat 16;
  let beta_ := 0.0%float in
  q ← truediv (B_ * gamma_)%float rho0_;
  mret {| H := H_; B := B_; gamma := gamma_; eps := eps_; rho0 := rho0_;
            alpha := alpha_; beta := beta_; c0 := sqrt q |}.

(** The array [numpy.loadtxt] returns has the shape of the file: no
    dimension for a single number, one for a single column or a single row,
    two for several rows of several columns. A row of a two-dimensional array
    therefore has at least two entries: its first two and the rest. *)
Inductive ndarray : Set :=
| Array0 (x : float)
| Array1 (xs : list float)
| Array2 (rows : list (float * float * list float)).

(** [float(a[i])] for a literal index [i >= 0]. A zero-dimensional array
    cannot be indexed; a row of a two-dimensional array is an array of
    several entries, which [float] refuses. *)
Definition float_item (a : ndarray) (i : nat) : Py float :=
  match a with
  | Array0 _ => inl IndexError
  | Array1 xs => getitem xs i
  | Array2 rows =>
      match rows !! i with
      | Some _ => inl TypeError
      | None => inl IndexError
      end
  end.

(** Lines 40-48 on the array of any shape; on a one-dimensional array this
    is [module_init]. *)
Definition module_load (indat : ndarray) : Py Globals :=
  H_ ← float_item indat 10;
  B_ ← float_item indat 11;
  gamma_ ← float_item indat 12;
  eps_ ← float_item indat 14;
  rho0_ ← float_item indat 15;
  alpha_ ← float_item indat 16;
  let beta_ := 0.0%float in
  q ← truediv (B_ * gamma_)%float rho0_;
  mret {| H := H_; B := B_; gamma := gamma_; eps := eps_; rho0 := rho0_;
          alpha := alpha_; beta := beta_; c0 := sqrt q |}.

(** ** The objects the application builds *)

Inductive Kernel : Set :=
| CubicSpline (dim : Z).

(** [WCSPHStep()] takes no argument: all its instances are alike. *)
Inductive Stepper : Set :=
| WCSPHStep.

(** An integrator is built from keyword arguments [species=stepper]. *)
Inductive Integrator : Type :=
| PECIntegrator (steppers : gmap string Stepper)
| EPECIntegrator (steppers : gmap string Stepper).

Inductive Scheme : Set := PEC | EPEC.

Definition scheme (i : Integrator) : Scheme :=
  match i with
  | PECIntegrator _ => PEC
  | EPECIntegrator _ => EPEC
  end.

Definition steppers (i : Integrator) : gmap string Stepper :=
  match i with
  | PECIntegrator s | EPECIntegrator s => s
  end.

Record Solver : Type := {
  solver_dim : Z;
  kernel : Kernel;
  integrator : Integrator;
  adaptive_timestep : bool;
  solver_tf : float;
  solver_dt : float;
  n_damp : Z
}.

(** [self.options]: the one user option, [--test] ([store_true], default
    [False]). *)
Record Options : Set := { test : bool }.

Definition create_solver (options : Options) : Solver :=
  let kernel_ := CubicSpline 3 in
  let '(integrator_, adaptive, n_damp_) :=
    if test options
    then (PECIntegrator (list_to_map [("fluid", WCSPHStep); ("boundary", WCSPHStep)]),
          false, 0)
    else (EPECIntegrator (list_to_map [("fluid", WCSPHStep); ("boundary", WCSPHStep)]),
          true, 0) in
  {| solver_dim := dim; kernel := kernel_; integrator := integrator_;
     adaptive_timestep := adaptive; solver_tf := tf; solver_dt := dt;
     n_damp := n_damp_ |}.

(** ** Equations and groups *)

Inductive Value : Set :=
| VFloat (x : float)
| VBool (b : bool).

Inductive EquationClass : Set :=
| TaitEOS
| TaitEOSHGCorrection
| ContinuityEquation
| MomentumEquation
| XSPHCorrection.

#[global] Instance EquationClass_eq_dec : EqDecision EquationClass.
Proof. solve_decision. Defined.

(** An equation object as the call that builds it: its class, [dest],
    [sources] ([None] is Python's [None]) and the remaining keyword
    arguments. A keyword the call leaves out is not in [kwargs]. *)
Record Equation : Type := {
  cls : EquationClass;
  dest : string;
  sources : option (list string);
  kwargs : gmap string Value
}.

(** [Group(equations=..., real=...)]; [real] is [None] when the call leaves
    the keyword out. *)
Record Group : Type := {
  equations : list Equation;
  real : option bool
}.

Definition create_equations (g : Globals) : list Group :=
  [ (* Equation of state *)
    {| equations :=
         [ {| cls := TaitEOS; dest := "fluid"; sources := None;
              kwargs := list_to_map [("rho0", VFloat (rho0 g)); ("c0", VFloat (c0 g));
                                     ("gamma", VFloat (gamma g))] |};
           {| cls := TaitEOSHGCorrection; dest := "boundary"; sources := None;
              kwargs := list_to_map [("rho0", VFloat (rho0 g)); ("c0", VFloat (c0 g));
                                     ("gamma", VFloat (gamma g))] |} ];
       real := Some false |};
    (* Continuity Momentum and XSPH equations *)
    {| equations :=
         [ {| cls := ContinuityEquation; dest := "fluid";
              sources := Some ["fluid"; "boundary"]; kwargs := ∅ |};
           {| cls := ContinuityEquation; dest := "boundary";
              sources := Some ["fluid"]; kwargs := ∅ |};
           {| cls := MomentumEquation; dest := "fluid";
              sources := Some ["fluid"; "boundary"];
              kwargs := list_to_map [("c0", VFloat (c0 g)); ("alpha", VFloat (alpha g));
                                     ("beta", VFloat (beta g)); ("gz", VFloat (-9.81)%float);
                                     ("tensile_correction", VBool true)] |};
           (* Position step with XSPH *)
           {| cls := XSPHCorrection; dest := "fluid"; sources := Some ["fluid"];
              kwargs := list_to_map [("eps", VFloat (eps g))] |} ];
       real := None |} ].

(** Every equation of a pipeline, in evaluation order, and the indices of
    the groups that hold an equation satisfying [P]. *)
Definition all_equations (gs : list Group) : list Equation :=
  gs ≫= equations.

Definition groups_with (P : Equation → bool) (gs : list Group) : list nat :=
  (imap (λ i grp, (i, grp)) gs ≫= λ '(i, grp), if existsb P (equations grp) then [i] else []).

Definition is_eos (e : Equation) : bool :=
  bool_decide (cls e = TaitEOS ∨ cls e = TaitEOSHGCorrection).

Definition is_rate (e : Equation) : bool :=
  bool_decide (cls e = ContinuityEquation ∨ cls e = MomentumEquation
               ∨ cls e = XSPHCorrection).

Definition has_class (c : EquationClass) (e : Equation) : bool :=
  bool_decide (cls e = c).

Definition has_dest (s : string) (e : Equation) : bool :=
  bool_decide (dest e = s).

(** ** Particle data and pipeline evaluation *)

Record vec : Set := Vec { vx : float; vy : float; vz : float }.

#[local] Open Scope float_scope.

Definition vzero : vec := Vec 0 0 0.
Definition vadd (a b : vec) : vec := Vec (vx a + vx b) (vy a + vy b) (vz a + vz b).
Definition vsub (a b : vec) : vec := Vec (vx a - vx b) (vy a - vy b) (vz a - vz b).
Definition vscale (k : float) (a : vec) : vec := Vec (k * vx a) (k * vy a) (k * vz a).
Definition vdot (a b : vec) : float := vx a * vx b + vy a * vy b + vz a * vz b.
Definition vnorm (a : vec) : float := sqrt (vdot a a).

(** Modelled from the spec: the particle arrays live in the library, not in
    this file. A particle (§3) has a position, a velocity, a density, a
    pressure, a mass and a smoothing length, plus the per-step accumulators
    d(density)/dt, acceleration and d(position)/dt. *)
Record Particle : Set := {
  position : vec;
  velocity : vec;
  density : float;
  pressure : float;
  mass : float;
  smoothing_length : float;
  density_rate : float;
  acceleration : vec;
  position_rate : vec
}.

Definition set_pressure (d : Particle) (x : float) : Particle :=
  {| position := position d; velocity := velocity d; density := density d;
     pressure := x; mass := mass d; smoothing_length := smoothing_length d;
     density_rate := density_rate d; acceleration := acceleration d;
     position_rate := position_rate d |}.

Definition set_density_rate (d : Particle) (x : float) : Particle :=
  {| position := position d; velocity := velocity d; density := density d;
     pressure := pressure d; mass := mass d; smoothing_length := smoothing_length d;
     density_rate := x; acceleration := acceleration d;
     position_rate := position_rate d |}.

Definition set_acceleration (d : Particle) (x : vec) : Particle :=
  {| position := position d; velocity := velocity d; density := density d;
     pressure := pressure d; mass := mass d; smoothing_length := smoothing_length d;
     density_rate := density_rate d; acceleration := x;
     position_rate := position_rate d |}.

Definition set_position_rate (d : Particle) (x : vec) : Particle :=
  {| position := position d; velocity := velocity d; density := density d;
     pressure := pressure d; mass := mass d; smoothing_length := smoothing_length d;
     density_rate := density_rate d; acceleration := acceleration d;
     position_rate := x |}.

(** The state of a particle apart from its density, its pressure and its
    accumulators. *)
Definition carried_state (d : Particle) : vec * vec * float * float :=
  (position d, velocity d, mass d, smoothing_length d).

(** Modelled from the spec: accumulators are zeroed at the start of each
    evaluation pass (§3). *)
Definition zero_accumulators (d : Particle) : Particle :=
  set_position_rate (set_acceleration (set_density_rate d 0) vzero) vzero.

(** Modelled from the spec: a keyword argument read as a float. The
    defaults of the equation classes are library code; a keyword the call
    left out is read as [0] (no force along that axis, no smoothing). *)
Definition float_kwarg (kw : gmap string Value) (k : string) : float :=
  match kw !! k with
  | Some (VFloat x) => x
  | _ => 0
  end.

(** Modelled from the spec: the constant body force of §4.4 (d), one
    component per axis. *)
Definition body_force (kw : gmap string Value) : vec :=
  Vec (float_kwarg kw "gx") (float_kwarg kw "gy") (float_kwarg kw "gz").


(** ** Steppers *)

(** Modelled from the spec: the state fields a stepper may predict and
    correct (§4.7). *)
Inductive Field : Set := Position | Velocity | Density.

#[global] Instance Field_eq_dec : EqDecision Field.
Proof. solve_decision. Defined.

(** Modelled from the spec: the stepper class is library code. §4.7 has the
    fluid species step position, velocity and density, and the fluid species
    is given a [WCSPHStep]. *)
Definition stepped_fields (s : Stepper) : list Field :=
  match s with
  | WCSPHStep => [Position; Velocity; Density]
  end.

(** Modelled from the spec: whether a stepper predicts and corrects a
    field. *)
Definition steps (s : Stepper) (f : Field) : bool :=
  bool_decide (f ∈ stepped_fields s).

(** Modelled from the spec: a stepper takes each field it steps from its
    value [d0] at the start of the step, along the current rate of [d], over
    [k]: half a timestep to predict, a whole one to correct (§4.7). The
    position follows the position rate, the velocity the acceleration, the
    density d(density)/dt (§3). *)
Definition advance (s : Stepper) (k : float) (d0 d : Particle) : Particle :=
  {| position := if steps s Position
                 then vadd (position d0) (vscale k (position_rate d))
                 else position d;
     velocity := if steps s Velocity
                 then vadd (velocity d0) (vscale k (acceleration d))
                 else velocity d;
     density := if steps s Density
                then density d0 + k * density_rate d
                else density d;
     pressure := pressure d; mass := mass d; smoothing_length := smoothing_length d;
     density_rate := density_rate d; acceleration := acceleration d;
     position_rate := position_rate d |}.

(** Modelled from the spec: one predictor or corrector stage over the
    particle set, each species with the stepper the integrator was given for
    it; [ps0] is the particle set at the start of the step. *)
Definition stage (i : Integrator) (k : float)
    (ps0 ps : gmap string (list Particle)) : gmap string (list Particle) :=
  map_imap (λ name parts,
              Some match steppers i !! name, ps0 !! name with
                   | Some st, Some parts0 => zip_with (advance st k) parts0 parts
                   | _, _ => parts
                   end) ps.

(** Two floats that are the same number: identical, or equal as [==] has it
    (which tells a zero from a zero of the other sign no more than Python
    does). *)
Definition same_number (x y : float) : Prop :=
  x = y ∨ (x =? y) = true.

Definition same_vec (a b : vec) : Prop :=
  same_number (vx a) (vx b) ∧ same_number (vy a) (vy b) ∧ same_number (vz a) (vz b).

Section Evaluation.

(** The collaborators of §6 and the pair laws whose formula the spec
    leaves open. *)
Context (neighbors : list Particle → Particle → list Particle)
        (weight : float → float → float)
        (gradient : vec → float → vec)
        (eos_pressure : EquationClass → gmap string Value → float → float)
        (momentum_pair : gmap string Value → Particle → Particle → vec).

(** Modelled from the spec: the continuity contribution of neighbour [j]
    to destination [d], m_j · (v_i − v_j) · ∇W(r_ij, h) (§4.3). *)
Definition continuity_pair (d j : Particle) : float :=
  mass j * vdot (vsub (velocity d) (velocity j))
                (gradient (vsub (position d) (position j)) (smoothing_length d)).

(** Modelled from the spec: the XSPH contribution of neighbour [j],
    ε · (m_j/ρ̄_ij) · (v_j − v_i) · W(r_ij, h) (§4.5). *)
Definition xsph_pair (kw : gmap string Value) (d j : Particle) : vec :=
  vscale (float_kwarg kw "eps" * (mass j / ((density d + density j) / 2))
          * weight (vnorm (vsub (position d) (position j))) (smoothing_length d))
         (vsub (velocity j) (velocity d)).

(** Modelled from the spec: what an equation does to a destination
    particle before any neighbour is visited. The equations of state use no
    neighbour and write the pressure (§4.2); the momentum equation adds its
    body force (§4.4); XSPH starts the position rate from the velocity
    (§4.5). *)
Definition init_rule (e : Equation) (d : Particle) : Particle :=
  match cls e with
  | TaitEOS | TaitEOSHGCorrection =>
      set_pressure d (eos_pressure (cls e) (kwargs e) (density d))
  | ContinuityEquation => d
  | MomentumEquation =>
      set_acceleration d (vadd (acceleration d) (body_force (kwargs e)))
  | XSPHCorrection =>
      set_position_rate d (vadd (position_rate d) (velocity d))
  end.

(** Modelled from the spec: the contribution of one neighbour, added to the
    accumulator the equation owns (§4.3, §4.4, §4.5). *)
Definition pair_rule (e : Equation) (d j : Particle) : Particle :=
  match cls e with
  | TaitEOS | TaitEOSHGCorrection => d
  | ContinuityEquation =>
      set_density_rate d (density_rate d + continuity_pair d j)
  | MomentumEquation =>
      set_acceleration d (vadd (acceleration d) (momentum_pair (kwargs e) d j))
  | XSPHCorrection =>
      set_position_rate d (vadd (position_rate d) (xsph_pair (kwargs e) d j))
  end.

(** Modelled from the spec: for one destination particle, gather the
    neighbours from each listed source species in turn and accumulate
    (§4.6). *)
Definition accumulate (e : Equation) (srcs : list (list Particle)) (d : Particle)
  : Particle :=
  foldl (λ d' src, foldl (pair_rule e) d' (neighbors src d)) (init_rule e d) srcs.

(** Modelled from the spec: one equation over a particle set, a map from
    the species name to its particles. A species the set lacks makes the
    evaluation fail (§4.7). *)
Definition eval_equation (e : Equation) (ps : gmap string (list Particle))
  : option (gmap string (list Particle)) :=
  dests ← ps !! dest e;
  srcs ← mapM (λ s, ps !! s) (default [] (sources e));
  Some (<[dest e := accumulate e srcs <$> dests]> ps).

(** Modelled from the spec: the equations of a group, one after the other
    (§4.6). *)
Fixpoint eval_equations (es : list Equation) (ps : gmap string (list Particle))
  : option (gmap string (list Particle)) :=
  match es with
  | [] => Some ps
  | e :: es' => ps' ← eval_equation e ps; eval_equations es' ps'
  end.

(** Modelled from the spec: groups run in declared order, each one after
    the previous one has finished; the real-only flag is a no-op filter in a
    single-process core (§4.6). *)
Fixpoint eval_groups (gs : list Group) (ps : gmap string (list Particle))
  : option (gmap string (list Particle)) :=
  match gs with
  | [] => Some ps
  | grp :: gs' => ps' ← eval_equations (equations grp) ps; eval_groups gs' ps'
  end.

(** Modelled from the spec: one full pipeline evaluation, from zeroed
    accumulators (§3, §4.6). *)
Definition eval_pipeline (gs : list Group) (ps : gmap string (list Particle))
  : option (gmap string (list Particle)) :=
  eval_groups gs (fmap (M := list) zero_accumulators <$> ps).

(** Modelled from the spec: one step of the integrator (§4.7). PEC predicts
    from the current rates, evaluates the pipeline and corrects; EPEC
    evaluates the pipeline once more, before predicting. *)
Definition integrate (i : Integrator) (pipeline : list Group) (dt : float)
    (ps : gmap string (list Particle)) : option (gmap string (list Particle)) :=
  match scheme i with
  | PEC =>
      ps2 ← eval_pipeline pipeline (stage i (dt / 2) ps ps);
      Some (stage i dt ps ps2)
  | EPEC =>
      ps1 ← eval_pipeline pipeline ps;
      ps2 ← eval_pipeline pipeline (stage i (dt / 2) ps ps1);
      Some (stage i dt ps ps2)
  end.

End Evaluation.

(** Modelled from the spec: the sum of §4.3 over a list of neighbours,
    dρ/dt = Σ_j m_j · (v_i − v_j) · ∇W(r_ij, h), added to [a]. *)
Definition continuity_sum (gradient : vec → float → vec)
    (d : Particle) (js : list Particle) (a : float) : float :=
  foldl (λ a' j, a' + continuity_pair gradient d j) a js.

(** ** The solver loop *)

(** Modelled from the spec: the solver's state (§3), current time, the
    timestep of the last step, the number of steps taken, and the particles. *)
Record SolverState : Type := {
  time : float;
  timestep : float;
  step_count : nat;
  particles : gmap string (list Particle)
}.

(** Modelled from the spec: the state the loop starts from, at time 0. *)
Definition init_state (s : Solver) (ps : gmap string (list Particle)) : SolverState :=
  {| time := 0; timestep := solver_dt s; step_count := 0; particles := ps |}.

(** Modelled from the spec: [INIT → RUNNING → TERMINATED], the latter with
    success or failure (§4.8). *)
Inductive Status : Set :=
| RUNNING
| TERMINATED (success : bool).

Section SolverLoop.

(** The integrator's step, the CFL-type reduction (whose formula the spec
    leaves open, §9) and the startup damping. *)
Context (integrator_step : Integrator → float → gmap string (list Particle)
                           → option (gmap string (list Particle)))
        (cfl_timestep : gmap string (list Particle) → float)
        (damping : nat → float → float).

(** Modelled from the spec: the timestep of a RUNNING iteration (§4.8),
    recomputed when adaptive timestepping is enabled and damped during the
    first [n_damp] steps. *)
Definition next_timestep (s : Solver) (st : SolverState) : float :=
  let dt1 := if adaptive_timestep s then cfl_timestep (particles st) else solver_dt s in
  if bool_decide (Z.of_nat (step_count st) < n_damp s)%Z
  then damping (step_count st) dt1
  else dt1.

(** Modelled from the spec: one RUNNING iteration, the integrator's step at
    the timestep chosen and the time advanced by it (§4.8); [None] when the
    step fails. *)
Definition solver_step (s : Solver) (st : SolverState) : option SolverState :=
  let dt' := next_timestep s st in
  ps' ← integrator_step (integrator s) dt' (particles st);
  Some {| time := time st + dt'; timestep := dt';
          step_count := S (step_count st); particles := ps' |}.

(** Modelled from the spec: the loop of §4.8, which ends with success when
    t ≥ tf and with failure when a step fails. The states reached are
    listed in order; [RUNNING] is what is left when [fuel] iterations were
    not enough. *)
Fixpoint solve (s : Solver) (fuel : nat) (st : SolverState)
  : list SolverState * Status :=
  if solver_tf s <=? time st then ([], TERMINATED true)
  else match fuel with
       | O => ([], RUNNING)
       | S n =>
           match solver_step s st with
           | None => ([], TERMINATED false)
           | Some st' => let '(tr, o) := solve s n st' in (st' :: tr, o)
           end
       end.

End SolverLoop.

#[local] Close Scope float_scope.

(** * Properties of the configuration *)

(** ** Shared facts *)

Lemma module_init_inr (indat : list float) (g : Globals) :
  module_init indat = inr g →
  indat !! 10%nat = Some (H g) ∧ indat !! 11%nat = Some (B g)
  ∧ indat !! 12%nat = Some (gamma g) ∧ indat !! 14%nat = Some (eps g)
  ∧ indat !! 15%nat = Some (rho0 g) ∧ indat !! 16%nat = Some (alpha g)
  ∧ beta g = 0%float
  ∧ ((rho0 g =? 0)%float = false)
  ∧ c0 g = sqrt (B g * gamma g / rho0 g)%float.
Proof.
  unfold module_init, getitem, truediv.
  destruct (indat !! 10%nat) as [h|]; [|discriminate].
  destruct (indat !! 11%nat) as [b|]; [|discriminate].
  destruct (indat !! 12%nat) as [ga|]; [|discriminate].
  destruct (indat !! 14%nat) as [ep|]; [|discriminate].
  destruct (indat !! 15%nat) as [r|]; [|discriminate].
  destruct (indat !! 16%nat) as [al|]; [|discriminate].
  cbn. destruct (r =? 0)%float eqn:Hr; [discriminate|].
  cbn. intros [= <-]. cbn. rewrite Hr. repeat split; reflexivity.
Qed.

(** The module loads as soon as INDAT has seventeen entries and a non-zero
    reference density. *)
Lemma module_init_total (indat : list float) (r : float) :
  (17 ≤ length indat)%nat → indat !! 15%nat = Some r → (r =? 0)%float = false →
  ∃ g, module_init indat = inr g.
Proof.
  intros Hlen Hr Hnz. unfold module_init, getitem, truediv.
  destruct (lookup_lt_is_Some_2 indat 10) as [? ->]; [lia|].
  destruct (lookup_lt_is_Some_2 indat 11) as [? ->]; [lia|].
  destruct (lookup_lt_is_Some_2 indat 12) as [? ->]; [lia|].
  destruct (lookup_lt_is_Some_2 indat 14) as [? ->]; [lia|].
  rewrite Hr.
  destruct (lookup_lt_is_Some_2 indat 16) as [? ->]; [lia|].
  cbn. rewrite Hnz. cbn. eauto.
Qed.

(** The module does not load from an INDAT that is too short or whose
    reference density is zero, of either sign. *)
Example module_init_short :
  module_init [0; 0; 0; 0; 0; 0; 0; 0; 0; 0; 0.0225; 163542.85; 7; 0; 0.5; 1000]%float
  = inl IndexError.
Proof. reflexivity. Qed.

Example module_init_zero_density :
  module_init [0; 0; 0; 0; 0; 0; 0; 0; 0; 0; 0.0225; 163542.85; 7; 0; 0.5; 0; 0.01]%float
  = inl ZeroDivisionError
  ∧ module_init [0; 0; 0; 0; 0; 0; 0; 0; 0; 0; 0.0225; 163542.85; 7; 0; 0.5; -0; 0.01]%float
    = inl ZeroDivisionError.
Proof. split; reflexivity. Qed.

Example module_init_sphysics :
  module_init [0; 0; 0; 0; 0; 0; 0; 0; 0; 0;
               0.0225; 163542.85; 7; 0; 0.5; 1000; 0.01]%float
  = inr {| H := 0.0225; B := 163542.85; gamma := 7; eps := 0.5; rho0 := 1000;
           alpha := 0.01; beta := 0; c0 := 33.834892492809843 |}%float.
Proof. reflexivity. Qed.

(** ** C1 *)

(** C1: with [--test], [create_solver] builds a PEC integrator, without it an
    EPEC integrator; either way the integrator is given a stepper for 'fluid'
    and one for 'boundary' (and for no other species). *)
Theorem create_solver_integrator (options : Options) :
  scheme (integrator (create_solver options)) = (if test options then PEC else EPEC)
  ∧ steppers (integrator (create_solver options)) !! "fluid" = Some WCSPHStep
  ∧ steppers (integrator (create_solver options)) !! "boundary" = Some WCSPHStep
  ∧ map_to_list (steppers (integrator (create_solver options)))
    ≡ₚ [("fluid", WCSPHStep); ("boundary", WCSPHStep)].
Proof. destruct options as [[]]; split_and!; reflexivity. Qed.

(** ** C2 *)

Lemma create_equations_lookup (g : Globals) (i : nat) (grp : Group) :
  create_equations g !! i = Some grp →
  (i = 0%nat ∧ Forall (λ e, is_eos e = true ∧ is_rate e = false) (equations grp))
  ∨ (i = 1%nat ∧ Forall (λ e, is_eos e = false ∧ is_rate e = true) (equations grp)).
Proof.
  destruct i as [|[|i]]; intros [= <-]; [left|right]; split; try reflexivity.
  all: repeat constructor.
Qed.

(** C2: in the pipeline of [create_equations] the equations of state (TaitEOS
    on 'fluid', TaitEOSHGCorrection on 'boundary') are in group 0 and the
    continuity, momentum and XSPH equations in group 1, so every equation of
    state sits in a group strictly before the group of any continuity,
    momentum or XSPH equation. *)
Theorem eos_group_before_rate_group (g : Globals) :
  groups_with is_eos (create_equations g) = [0%nat]
  ∧ groups_with is_rate (create_equations g) = [1%nat]
  ∧ (λ e, (cls e, dest e)) <$> filter is_eos (all_equations (create_equations g))
    = [(TaitEOS, "fluid"); (TaitEOSHGCorrection, "boundary")]
  ∧ cls <$> filter is_rate (all_equations (create_equations g))
    = [ContinuityEquation; ContinuityEquation; MomentumEquation; XSPHCorrection]
  ∧ ∀ i j gi gj ei ej,
      create_equations g !! i = Some gi → create_equations g !! j = Some gj →
      ei ∈ equations gi → ej ∈ equations gj →
      is_eos ei = true → is_rate ej = true → (i < j)%nat.
Proof.
  split_and!; try reflexivity.
  intros i j gi gj ei ej Hi Hj Hei Hej Heos Hrate.
  apply create_equations_lookup in Hi as [[-> Hgi]|[-> Hgi]];
    apply create_equations_lookup in Hj as [[-> Hgj]|[-> Hgj]].
  all: rewrite Forall_forall in Hgi, Hgj.
  all: specialize (Hgi _ Hei); specialize (Hgj _ Hej).
  all: try lia; intuition congruence.
Qed.

Lemma eos_group_before_rate_group_witness :
  let g := {| H := 1; B := 1; gamma := 7; eps := 0.5; rho0 := 1000; alpha := 0.01;
              beta := 0; c0 := 1 |}%float in
  ∃ gi gj ei ej,
    create_equations g !! 0%nat = Some gi ∧ create_equations g !! 1%nat = Some gj
    ∧ equations gi !! 0%nat = Some ei ∧ equations gj !! 2%nat = Some ej
    ∧ cls ei = TaitEOS ∧ cls ej = MomentumEquation ∧ (0 < 1)%nat.
Proof.
  intros g. do 4 eexists. split_and!; try reflexivity.
  eapply (proj2 (proj2 (proj2 (proj2 (eos_group_before_rate_group g))))
            0%nat 1%nat _ _
            {| cls := TaitEOS; dest := "fluid"; sources := None;
               kwargs := list_to_map [("rho0", VFloat (rho0 g)); ("c0", VFloat (c0 g));
                                      ("gamma", VFloat (gamma g))] |}
            {| cls := MomentumEquation; dest := "fluid";
               sources := Some ["fluid"; "boundary"];
               kwargs := list_to_map [("c0", VFloat (c0 g)); ("alpha", VFloat (alpha g));
                                      ("beta", VFloat (beta g)); ("gz", VFloat (-9.81)%float);
                                      ("tensile_correction", VBool true)] |}).
  - reflexivity.
  - reflexivity.
  - apply list_elem_of_here.
  - do 2 apply list_elem_of_further. apply list_elem_of_here.
  - reflexivity.
  - reflexivity.
Defined.

(** ** C3 *)

(** A property of every equation of the pipeline is checked equation by
    equation. *)
Ltac each_equation :=
  match goal with
  | |- Forall _ (all_equations (create_equations _)) =>
      unfold all_equations; repeat (first [apply Forall_nil_2 | apply Forall_cons_2])
  end.

Lemma c0_of_equations (g : Globals) :
  Forall (λ e, ∀ v, kwargs e !! "c0" = Some v → v = VFloat (c0 g))
         (all_equations (create_equations g)).
Proof.
  destruct g as [h b ga ep r al be c].
  each_equation; intros v Hv; vm_compute in Hv;
    first [discriminate Hv | injection Hv as <-; reflexivity].
Qed.

(** C3: once the module has loaded, [B], [gamma] and [rho0] are entries 11,
    12 and 15 of INDAT, [c0] is sqrt(B·gamma/rho0), the equations that are
    passed a [c0] are the two equations of state and the momentum equation,
    and the value each of them is passed is that one [c0]. *)
Theorem c0_passed_to_equations (indat : list float) (g : Globals) :
  module_init indat = inr g →
  indat !! 11%nat = Some (B g) ∧ indat !! 12%nat = Some (gamma g)
  ∧ indat !! 15%nat = Some (rho0 g)
  ∧ c0 g = sqrt (B g * gamma g / rho0 g)%float
  ∧ cls <$> filter (λ e, is_Some (kwargs e !! "c0")) (all_equations (create_equations g))
    = [TaitEOS; TaitEOSHGCorrection; MomentumEquation]
  ∧ Forall (λ e, ∀ v, kwargs e !! "c0" = Some v
                      → v = VFloat (sqrt (B g * gamma g / rho0 g)%float))
           (all_equations (create_equations g)).
Proof.
  intros Hg. destruct (module_init_inr _ _ Hg) as (_ & HB & Hga & _ & Hr & _ & _ & _ & Hc).
  split_and!; try done.
  rewrite <- Hc. apply c0_of_equations.
Qed.

(** An INDAT array with the layout the module reads: entries 10 to 16 are
    H, B, gamma, an unused one, eps, rho0 and alpha. *)
Lemma c0_passed_to_equations_witness :
  let indat := [0; 0; 0; 0; 0; 0; 0; 0; 0; 0;
                0.0225; 163542.85; 7; 0; 0.5; 1000; 0.01]%float in
  ∃ g, module_init indat = inr g
       ∧ c0 g = sqrt (163542.85 * 7 / 1000)%float
       ∧ Forall (λ e, ∀ v, kwargs e !! "c0" = Some v
                           → v = VFloat (sqrt (B g * gamma g / rho0 g)%float))
                (all_equations (create_equations g)).
Proof.
  intros indat.
  exists {| H := 0.0225; B := 163542.85; gamma := 7; eps := 0.5; rho0 := 1000;
            alpha := 0.01; beta := 0; c0 := sqrt (163542.85 * 7 / 1000) |}%float.
  split; [reflexivity|].
  split; [reflexivity|].
  apply (c0_passed_to_equations indat). reflexivity.
Defined.

(** ** C5 *)

(** C5: the pipeline has two equations of state, plain Tait for 'fluid' and
    the HG-corrected one for 'boundary'; both have [sources = None] and both
    are passed the same [rho0], [c0] and [gamma] and nothing else. *)
Theorem eos_equations_share_constants (g : Globals) :
  ∃ e1 e2,
    filter is_eos (all_equations (create_equations g)) = [e1; e2]
    ∧ cls e1 = TaitEOS ∧ dest e1 = "fluid" ∧ sources e1 = None
    ∧ cls e2 = TaitEOSHGCorrection ∧ dest e2 = "boundary" ∧ sources e2 = None
    ∧ kwargs e1 = kwargs e2
    ∧ kwargs e1 !! "rho0" = Some (VFloat (rho0 g))
    ∧ kwargs e1 !! "c0" = Some (VFloat (c0 g))
    ∧ kwargs e1 !! "gamma" = Some (VFloat (gamma g))
    ∧ size (kwargs e1) = 3%nat.
Proof. do 2 eexists. split_and!; reflexivity. Qed.

(** ** C6 *)

(** C6: the pipeline has one momentum equation; its destination is 'fluid',
    its sources are 'fluid' and 'boundary', the tensile correction is on, the
    only body-force component passed is [gz = -9.81] (neither [gx] nor [gy]
    is given), and [alpha] is entry 16 of INDAT. *)
Theorem momentum_equation_configuration (indat : list float) (g : Globals) :
  module_init indat = inr g →
  ∃ e,
    filter (has_class MomentumEquation) (all_equations (create_equations g)) = [e]
    ∧ dest e = "fluid" ∧ sources e = Some ["fluid"; "boundary"]
    ∧ kwargs e !! "tensile_correction" = Some (VBool true)
    ∧ kwargs e !! "gz" = Some (VFloat (-9.81)%float)
    ∧ kwargs e !! "gx" = None ∧ kwargs e !! "gy" = None
    ∧ kwargs e !! "alpha" = Some (VFloat (alpha g))
    ∧ indat !! 16%nat = Some (alpha g).
Proof.
  intros Hg. destruct (module_init_inr _ _ Hg) as (_ & _ & _ & _ & _ & Hal & _).
  eexists. split_and!; try reflexivity. exact Hal.
Qed.

Lemma momentum_equation_configuration_witness :
  let indat := [0; 0; 0; 0; 0; 0; 0; 0; 0; 0;
                0.0225; 163542.85; 7; 0; 0.5; 1000; 0.01]%float in
  ∃ g e,
    module_init indat = inr g
    ∧ filter (has_class MomentumEquation) (all_equations (create_equations g)) = [e]
    ∧ kwargs e !! "gz" = Some (VFloat (-9.81)%float)
    ∧ kwargs e !! "alpha" = Some (VFloat 0.01%float).
Proof.
  intros indat.
  pose (g := {| H := 0.0225; B := 163542.85; gamma := 7; eps := 0.5; rho0 := 1000;
                alpha := 0.01; beta := 0; c0 := sqrt (163542.85 * 7 / 1000) |}%float).
  destruct (momentum_equation_configuration indat g eq_refl)
    as (e & He & _ & _ & _ & Hgz & _ & _ & Hal & _).
  exists g, e. split_and!; [reflexivity | exact He | exact Hgz | exact Hal].
Defined.

(** ** C8 *)

Section FixedTimestep.

Context (integrator_step : Integrator → float → gmap string (list Particle)
                           → option (gmap string (list Particle))).

Lemma next_timestep_fixed cfl damping (s : Solver) (st : SolverState) :
  adaptive_timestep s = false → n_damp s = 0 →
  next_timestep cfl damping s st = solver_dt s.
Proof.
  intros Ha Hn. unfold next_timestep. rewrite Ha, Hn.
  rewrite bool_decide_eq_false_2; [reflexivity | lia].
Qed.

Lemma solver_step_fixed cfl damping cfl' damping' (s : Solver) (st : SolverState) :
  adaptive_timestep s = false → n_damp s = 0 →
  solver_step integrator_step cfl damping s st
  = solver_step integrator_step cfl' damping' s st.
Proof.
  intros Ha Hn. unfold solver_step. by rewrite !next_timestep_fixed.
Qed.

Lemma solver_step_timestep cfl damping (s : Solver) (st st' : SolverState) :
  adaptive_timestep s = false → n_damp s = 0 →
  solver_step integrator_step cfl damping s st = Some st' →
  timestep st' = solver_dt s ∧ time st' = (time st + solver_dt s)%float.
Proof.
  intros Ha Hn. unfold solver_step. rewrite next_timestep_fixed by done.
  destruct (integrator_step _ _ _); [|discriminate]. by intros [= <-].
Qed.

Lemma solve_fixed_timestep cfl damping (s : Solver) (fuel : nat) (st : SolverState) :
  adaptive_timestep s = false → n_damp s = 0 →
  Forall (λ st', timestep st' = solver_dt s)
         (solve integrator_step cfl damping s fuel st).1.
Proof.
  intros Ha Hn. revert st. induction fuel as [|n IH]; intros st; simpl.
  - destruct (solver_tf s <=? time st)%float; constructor.
  - destruct (solver_tf s <=? time st)%float; [constructor|].
    destruct (solver_step _ _ _ s st) as [st'|] eqn:Hstep; [|constructor].
    specialize (IH st').
    destruct (solve _ _ _ s n st') as [tr o]. simpl in *.
    constructor; [|exact IH].
    by eapply solver_step_timestep.
Qed.

Lemma solve_fixed_independent cfl damping cfl' damping'
    (s : Solver) (fuel : nat) (st : SolverState) :
  adaptive_timestep s = false → n_damp s = 0 →
  solve integrator_step cfl damping s fuel st
  = solve integrator_step cfl' damping' s fuel st.
Proof.
  intros Ha Hn. revert st. induction fuel as [|n IH]; intros st; simpl; [reflexivity|].
  rewrite (solver_step_fixed cfl damping cfl' damping') by done.
  destruct (solver_step _ _ _ s st) as [st'|]; [|reflexivity].
  by rewrite IH.
Qed.

End FixedTimestep.

(** C8: with [--test] the solver has adaptive timestepping off, no damping
    step and [dt = 1e-5]; every step of a run then uses that timestep, and the
    sequence of states does not depend on the timestep reduction or on the
    damping, so the run from a given particle set is the same every time.
    Without [--test] adaptive timestepping is on and [n_damp] is 0 as well. *)
Theorem test_run_fixed_timestep :
  let s := create_solver {| test := true |} in
  let s' := create_solver {| test := false |} in
  adaptive_timestep s = false ∧ n_damp s = 0 ∧ solver_dt s = 1e-5%float
  ∧ adaptive_timestep s' = true ∧ n_damp s' = 0
  ∧ (∀ integrator_step cfl damping fuel ps,
       Forall (λ st, timestep st = 1e-5%float)
              (solve integrator_step cfl damping s fuel (init_state s ps)).1)
  ∧ (∀ integrator_step cfl damping cfl' damping' fuel ps,
       solve integrator_step cfl damping s fuel (init_state s ps)
       = solve integrator_step cfl' damping' s fuel (init_state s ps)).
Proof.
  intros s s'. split_and!; try reflexivity.
  - intros. by apply (solve_fixed_timestep _ _ _ s).
  - intros. by apply solve_fixed_independent.
Qed.

(** Three steps of a test run whose integrator returns the particles as
    they are: the timestep stays at [dt] and the time advances by it. *)
Example solve_three_steps :
  let s := create_solver {| test := true |} in
  (λ st, (time st, timestep st))
    <$> (solve (λ _ _ ps, Some ps) (λ _, 0.5%float) (λ _ x, x) s 3 (init_state s ∅)).1
  = [(1e-5, 1e-5); (2e-5, 1e-5); (3.0000000000000004e-5, 1e-5)]%float.
Proof. reflexivity. Qed.

(** ** C9 *)






(** ** Pipeline evaluation: what an equation leaves alone *)

Section EvaluationFacts.

Context (neighbors : list Particle → Particle → list Particle)
        (weight : float → float → float)
        (gradient : vec → float → vec)
        (eos_pressure : EquationClass → gmap string Value → float → float)
        (momentum_pair : gmap string Value → Particle → Particle → vec).

#[local] Abbreviation init := (init_rule eos_pressure).
#[local] Abbreviation pair := (pair_rule weight gradient momentum_pair).
#[local] Abbreviation accum :=
  (accumulate neighbors weight gradient eos_pressure momentum_pair).
#[local] Abbreviation eval1 :=
  (eval_equation neighbors weight gradient eos_pressure momentum_pair).
#[local] Abbreviation evals :=
  (eval_equations neighbors weight gradient eos_pressure momentum_pair).
#[local] Abbreviation evalg :=
  (eval_groups neighbors weight gradient eos_pressure momentum_pair).
#[local] Abbreviation evalp :=
  (eval_pipeline neighbors weight gradient eos_pressure momentum_pair).

(** A projection [π] of the particle that neither rule of [e] changes. *)
#[local] Abbreviation keeps π e :=
  ((∀ d, π (init e d) = π d) ∧ (∀ d j, π (pair e d j) = π d)).

Lemma foldl_pair_rule_keeps {T} (π : Particle → T) (e : Equation) :
  (∀ d j, π (pair e d j) = π d) →
  ∀ js d, π (foldl (pair e) d js) = π d.
Proof.
  intros Hp js. induction js as [|j js IH]; intros d; simpl; [reflexivity|].
  by rewrite IH.
Qed.

Lemma accumulate_keeps {T} (π : Particle → T) (e : Equation) :
  keeps π e → ∀ srcs d, π (accum e srcs d) = π d.
Proof.
  intros [Hi Hp] srcs d. unfold accumulate. rewrite <- (Hi d).
  generalize (init e d) as d'.
  induction srcs as [|src srcs IH]; intros d'; simpl; [reflexivity|].
  rewrite IH. by apply foldl_pair_rule_keeps.
Qed.

Lemma eval_equation_keeps {T} (π : Particle → T) (e : Equation)
    (ps ps' : gmap string (list Particle)) (s : string) :
  (dest e = s → keeps π e) →
  eval1 e ps = Some ps' →
  fmap π <$> ps' !! s = fmap π <$> ps !! s.
Proof.
  intros Hk. unfold eval_equation.
  destruct (ps !! dest e) as [dests|] eqn:Hd; [|discriminate]. simpl.
  destruct (mapM _ _) as [srcs|]; [|discriminate]. simpl.
  intros [= <-]. destruct (decide (dest e = s)) as [<-|Hne].
  - rewrite lookup_insert_eq, Hd. simpl. f_equal.
    rewrite <- list_fmap_compose. apply list_fmap_ext.
    intros i d _. simpl. by apply accumulate_keeps, Hk.
  - by rewrite lookup_insert_ne.
Qed.

Lemma eval_equations_keeps {T} (π : Particle → T) (es : list Equation)
    (ps ps' : gmap string (list Particle)) (s : string) :
  Forall (λ e, dest e = s → keeps π e) es →
  evals es ps = Some ps' →
  fmap π <$> ps' !! s = fmap π <$> ps !! s.
Proof.
  intros Hes. revert ps. induction Hes as [|e es He Hes IH]; intros ps; simpl.
  - by intros [= <-].
  - destruct (eval1 e ps) as [ps1|] eqn:H1; [|discriminate]. simpl.
    intros H2. rewrite (IH _ H2). by eapply eval_equation_keeps.
Qed.

Lemma eval_groups_keeps {T} (π : Particle → T) (gs : list Group)
    (ps ps' : gmap string (list Particle)) (s : string) :
  Forall (λ e, dest e = s → keeps π e) (all_equations gs) →
  evalg gs ps = Some ps' →
  fmap π <$> ps' !! s = fmap π <$> ps !! s.
Proof.
  revert ps. induction gs as [|grp gs IH]; intros ps Hall; simpl.
  - by intros [= <-].
  - unfold all_equations in Hall. simpl in Hall.
    apply Forall_app in Hall as [Hgrp Hgs].
    destruct (evals (equations grp) ps) as [ps1|] eqn:H1; [|discriminate].
    simpl. intros H2. rewrite (IH _ Hgs H2).
    exact (eval_equations_keeps π _ _ _ _ Hgrp H1).
Qed.

(** Only the momentum equation writes the acceleration, only XSPH the
    position rate, only the continuity equation the density rate, only the
    equations of state the pressure; no equation writes anything else. *)
Lemma keeps_acceleration (e : Equation) :
  cls e ≠ MomentumEquation → keeps acceleration e.
Proof.
  intros Hc. unfold init_rule, pair_rule.
  split; intros; destruct (cls e); first [reflexivity | congruence].
Qed.

Lemma keeps_position_rate (e : Equation) :
  cls e ≠ XSPHCorrection → keeps position_rate e.
Proof.
  intros Hc. unfold init_rule, pair_rule.
  split; intros; destruct (cls e); first [reflexivity | congruence].
Qed.

Lemma keeps_carried_state (e : Equation) : keeps carried_state e.
Proof.
  unfold init_rule, pair_rule.
  split; intros; destruct (cls e); first [reflexivity | congruence].
Qed.

(** *** Evaluation succeeds on a configured particle set *)

Lemma eval_equation_dom (e : Equation) (ps ps' : gmap string (list Particle)) :
  eval1 e ps = Some ps' → dom ps' = dom ps.
Proof.
  unfold eval_equation.
  destruct (ps !! dest e) as [dests|] eqn:Hd; [|discriminate]. simpl.
  destruct (mapM _ _) as [srcs|]; [|discriminate]. simpl.
  intros [= <-]. apply dom_insert_lookup_L. by eexists.
Qed.

Lemma eval_equation_is_Some (e : Equation) (ps : gmap string (list Particle)) :
  dest e ∈ dom ps → Forall (.∈ dom ps) (default [] (sources e)) →
  is_Some (eval1 e ps).
Proof.
  intros [dests Hd]%elem_of_dom Hs. unfold eval_equation. rewrite Hd. simpl.
  destruct (mapM_is_Some_2 (λ s, ps !! s) (default [] (sources e))) as [srcs ->].
  { eapply Forall_impl; [exact Hs|]. intros s Hin. by apply elem_of_dom. }
  simpl. by eexists.
Qed.

Lemma eval_equations_is_Some (es : list Equation) (ps : gmap string (list Particle)) :
  Forall (λ e, dest e ∈ dom ps ∧ Forall (.∈ dom ps) (default [] (sources e))) es →
  ∃ ps', evals es ps = Some ps' ∧ dom ps' = dom ps.
Proof.
  revert ps. induction es as [|e es IH]; intros ps Hes; simpl; [by eexists|].
  apply Forall_cons in Hes as [[Hd Hs] Hes].
  destruct (eval_equation_is_Some e ps Hd Hs) as [ps1 H1]. rewrite H1. simpl.
  pose proof (eval_equation_dom _ _ _ H1) as Hdom.
  destruct (IH ps1) as (ps' & H2 & Hdom'); [by rewrite Hdom|].
  exists ps'. split; [exact H2 | congruence].
Qed.

Lemma eval_groups_is_Some (gs : list Group) (ps : gmap string (list Particle)) :
  Forall (λ e, dest e ∈ dom ps ∧ Forall (.∈ dom ps) (default [] (sources e)))
         (all_equations gs) →
  ∃ ps', evalg gs ps = Some ps' ∧ dom ps' = dom ps.
Proof.
  revert ps. induction gs as [|grp gs IH]; intros ps Hall; simpl; [by eexists|].
  unfold all_equations in Hall. simpl in Hall.
  apply Forall_app in Hall as [Hgrp Hgs].
  destruct (eval_equations_is_Some _ _ Hgrp) as (ps1 & H1 & Hdom). rewrite H1. simpl.
  destruct (IH ps1) as (ps' & H2 & Hdom'); [by rewrite Hdom|].
  exists ps'. split; [exact H2 | congruence].
Qed.

Lemma create_equations_configured (g : Globals) (ps : gmap string (list Particle)) :
  "fluid" ∈ dom ps → "boundary" ∈ dom ps →
  Forall (λ e, dest e ∈ dom ps ∧ Forall (.∈ dom ps) (default [] (sources e)))
         (all_equations (create_equations g)).
Proof.
  intros Hf Hb. each_equation; (split; [|repeat constructor]); assumption.
Qed.

Lemma eval_pipeline_is_Some (g : Globals) (ps : gmap string (list Particle)) :
  "fluid" ∈ dom ps → "boundary" ∈ dom ps →
  is_Some (evalp (create_equations g) ps).
Proof.
  intros Hf Hb. unfold eval_pipeline.
  destruct (eval_groups_is_Some (create_equations g)
              (fmap (M := list) zero_accumulators <$> ps)) as (ps' & -> & _);
    [|by eexists].
  apply create_equations_configured; by rewrite dom_fmap_L.
Qed.

(** *** C10 *)

Lemma boundary_equations_keep (g : Globals) :
  Forall (λ e, dest e = "boundary" →
               cls e ≠ MomentumEquation ∧ cls e ≠ XSPHCorrection)
         (all_equations (create_equations g)).
Proof. each_equation; intros Hd; first [discriminate Hd | by split]. Qed.

Lemma eval_pipeline_boundary (g : Globals) (ps ps' : gmap string (list Particle)) :
  evalp (create_equations g) ps = Some ps' →
  fmap acceleration <$> ps' !! "boundary" = fmap (λ _, vzero) <$> ps !! "boundary"
  ∧ fmap position_rate <$> ps' !! "boundary" = fmap (λ _, vzero) <$> ps !! "boundary"
  ∧ fmap carried_state <$> ps' !! "boundary" = fmap carried_state <$> ps !! "boundary".
Proof.
  unfold eval_pipeline. intros Hps'.
  pose proof (boundary_equations_keep g) as Hk.
  assert (∀ {T} (π : Particle → T) (c : Particle → T),
            (∀ d, π (zero_accumulators d) = c d) →
            fmap π <$> (fmap (M := list) zero_accumulators <$> ps) !! "boundary"
            = fmap c <$> ps !! "boundary") as Hzero.
  { intros T π c Hc. rewrite lookup_fmap.
    destruct (ps !! "boundary") as [bd|]; [|reflexivity].
    simpl. f_equal. rewrite <- list_fmap_compose. apply list_fmap_ext.
    intros i d _. apply Hc. }
  split_and!.
  - rewrite (eval_groups_keeps acceleration _ _ _ "boundary") with (2 := Hps').
    + by apply Hzero.
    + eapply Forall_impl; [exact Hk|]. intros e He Hd.
      apply keeps_acceleration. by apply He.
  - rewrite (eval_groups_keeps position_rate _ _ _ "boundary") with (2 := Hps').
    + by apply Hzero.
    + eapply Forall_impl; [exact Hk|]. intros e He Hd.
      apply keeps_position_rate. by apply He.
  - rewrite (eval_groups_keeps carried_state _ _ _ "boundary") with (2 := Hps').
    + by apply Hzero.
    + apply Forall_forall. intros e _ _. apply keeps_carried_state.
Qed.

(** C10: the equations of the pipeline whose destination is 'boundary' are
    the HG-corrected equation of state and a continuity equation, neither a
    momentum equation nor an XSPH correction. A pipeline evaluation over a
    particle set that has both species succeeds, and in its result every
    boundary particle has a zero acceleration and a zero position rate and
    the position, velocity, mass and smoothing length it had before: only its
    pressure and its density (the d(density)/dt accumulator the continuity
    equation writes) can have changed. *)
Theorem boundary_rates_stay_zero (g : Globals) (ps : gmap string (list Particle)) :
  "fluid" ∈ dom ps → "boundary" ∈ dom ps →
  cls <$> filter (has_dest "boundary") (all_equations (create_equations g))
  = [TaitEOSHGCorrection; ContinuityEquation]
  ∧ ∃ ps', evalp (create_equations g) ps = Some ps'
      ∧ fmap acceleration <$> ps' !! "boundary" = fmap (λ _, vzero) <$> ps !! "boundary"
      ∧ fmap position_rate <$> ps' !! "boundary" = fmap (λ _, vzero) <$> ps !! "boundary"
      ∧ fmap carried_state <$> ps' !! "boundary"
        = fmap carried_state <$> ps !! "boundary".
Proof.
  intros Hf Hb. split; [reflexivity|].
  destruct (eval_pipeline_is_Some g ps Hf Hb) as [ps' Hps']. exists ps'.
  split; [exact Hps'|]. by apply (eval_pipeline_boundary g).
Qed.

(** *** C4 *)

Lemma foldl_continuity (e : Equation) :
  cls e = ContinuityEquation →
  ∀ js d a,
    foldl (pair e) (set_density_rate d a) js
    = set_density_rate d (continuity_sum gradient d js a).
Proof.
  intros Hc.
  assert (∀ d a j, pair e (set_density_rate d a) j
                   = set_density_rate d (a + continuity_pair gradient d j)%float) as Hstep.
  { intros d a j. unfold pair_rule. rewrite Hc. reflexivity. }
  intros js. induction js as [|j js IH]; intros d a; [reflexivity|].
  cbn [foldl]. rewrite Hstep. apply IH.
Qed.

Lemma accumulate_continuity (e : Equation) (srcs : list (list Particle)) (d : Particle) :
  cls e = ContinuityEquation →
  accum e srcs d
  = set_density_rate d
      (foldl (λ a src, continuity_sum gradient d (neighbors src d) a)
             (density_rate d) srcs).
Proof.
  intros Hc. unfold accumulate, init_rule. rewrite Hc.
  assert (d = set_density_rate d (density_rate d)) as Hd by by destruct d.
  rewrite Hd at 1. generalize (density_rate d) as a.
  induction srcs as [|src srcs IH]; intros a; simpl; [reflexivity|].
  rewrite foldl_continuity by done. apply IH.
Qed.

Lemma eval_continuity (e : Equation) (ps : gmap string (list Particle))
    (dests : list Particle) (srcs : list (list Particle)) :
  cls e = ContinuityEquation →
  ps !! dest e = Some dests →
  mapM (λ s, ps !! s) (default [] (sources e)) = Some srcs →
  eval1 e ps
  = Some (<[dest e :=
              (λ d, set_density_rate d
                      (foldl (λ a src, continuity_sum gradient d (neighbors src d) a)
                             (density_rate d) srcs)) <$> dests]> ps).
Proof.
  intros Hc Hd Hs. unfold eval_equation. rewrite Hd. simpl. rewrite Hs. simpl.
  do 2 f_equal. apply list_fmap_ext. intros i d _. by apply accumulate_continuity.
Qed.

(** C4: the pipeline has two continuity equations. The one for 'fluid' lists
    the sources 'fluid' and 'boundary', and evaluating it gives every fluid
    particle the sum of the contributions of its fluid neighbours plus the
    sum of the contributions of its boundary neighbours, both of them; the
    one for 'boundary' lists 'fluid' alone and sums over the fluid neighbours
    only. *)
Theorem continuity_sums_over_sources (g : Globals) (ps : gmap string (list Particle))
    (fl bd : list Particle) :
  ps !! "fluid" = Some fl → ps !! "boundary" = Some bd →
  ∃ ef eb,
    filter (has_class ContinuityEquation) (all_equations (create_equations g)) = [ef; eb]
    ∧ dest ef = "fluid" ∧ sources ef = Some ["fluid"; "boundary"]
    ∧ dest eb = "boundary" ∧ sources eb = Some ["fluid"]
    ∧ eval1 ef ps
      = Some (<["fluid" :=
                  (λ d, set_density_rate d
                          (continuity_sum gradient d (neighbors bd d)
                             (continuity_sum gradient d (neighbors fl d)
                                (density_rate d)))) <$> fl]> ps)
    ∧ eval1 eb ps
      = Some (<["boundary" :=
                  (λ d, set_density_rate d
                          (continuity_sum gradient d (neighbors fl d)
                             (density_rate d))) <$> bd]> ps).
Proof.
  intros Hfl Hbd. do 2 eexists. split; [reflexivity|].
  split_and!; try reflexivity.
  - match goal with
    | |- _ ?e ps = _ => rewrite (eval_continuity e ps fl [fl; bd] eq_refl Hfl)
    end; [reflexivity|].
    change (mapM (λ s, ps !! s) ["fluid"; "boundary"] = Some [fl; bd]).
    cbn [mapM]. rewrite Hfl, Hbd. reflexivity.
  - match goal with
    | |- _ ?e ps = _ => rewrite (eval_continuity e ps bd [fl] eq_refl Hbd)
    end; [reflexivity|].
    change (mapM (λ s, ps !! s) ["fluid"] = Some [fl]).
    cbn [mapM]. rewrite Hfl. reflexivity.
Qed.

(** *** C7 *)

(** C7 as stated fails: with [--test] (and likewise without) the 'boundary'
    species is given the very stepper the 'fluid' species is given, so
    whatever a stepper is taken to step, the two step the same fields: the
    boundary stepper cannot step density only while the fluid stepper steps
    position, velocity and density. With the reading of §4.7 the boundary
    stepper steps all three. *)
Lemma boundary_stepper_not_density_only :
  stepped_fields <$> steppers (integrator (create_solver {| test := true |})) !! "boundary"
  ≠ Some [Density]
  ∧ ¬ ∃ (fields : Stepper → list Field) (b f : Stepper),
        steppers (integrator (create_solver {| test := true |})) !! "boundary" = Some b
        ∧ steppers (integrator (create_solver {| test := true |})) !! "fluid" = Some f
        ∧ fields b = [Density]
        ∧ fields f = [Position; Velocity; Density].
Proof.
  split.
  - assert (stepped_fields
              <$> steppers (integrator (create_solver {| test := true |})) !! "boundary"
            = Some [Position; Velocity; Density]) as -> by reflexivity.
    discriminate.
  - intros (fields & b & f & Hb & Hf & Hsb & Hsf).
    assert (Some b = Some f) as [= ->].
    { rewrite <- Hb, <- Hf. reflexivity. }
    rewrite Hsb in Hsf. discriminate Hsf.
Qed.

(** Adding [k] times a zero rate to a number gives that number back, when
    [k] is finite. *)
Lemma add_mul_zero (k x : float) :
  is_finite k = true → same_number (x + k * 0) x.
Proof.
  intros Hk.
  assert (∃ s, Prim2SF (k * 0) = S754_zero s) as [s Hz].
  { rewrite mul_spec. revert Hk. unfold is_finite, is_nan, is_infinity.
    rewrite !FloatAxioms.eqb_spec, abs_spec.
    change (Prim2SF 0) with (S754_zero false).
    change (Prim2SF infinity) with (S754_infinity false).
    destruct (Prim2SF k) as [sk|[]| |sk mk ek]; intros Hk;
      first [discriminate Hk | by eexists]. }
  unfold same_number.
  destruct (Prim2SF x) as [sx|sx| |sx mx ex] eqn:Hx.
  - destruct (Bool.eqb sx s) eqn:Hs.
    + left. apply Prim2SF_inj. rewrite add_spec, Hz, Hx.
      apply Bool.eqb_prop in Hs as ->. by destruct s.
    + right. rewrite FloatAxioms.eqb_spec, add_spec, Hz, Hx. by destruct sx, s.
  - left. apply Prim2SF_inj. by rewrite add_spec, Hz, Hx.
  - left. apply Prim2SF_inj. by rewrite add_spec, Hz, Hx.
  - left. apply Prim2SF_inj. by rewrite add_spec, Hz, Hx.
Qed.

Lemma vadd_vscale_vzero (k : float) (a : vec) :
  is_finite k = true → same_vec (vadd a (vscale k vzero)) a.
Proof. intros Hk. split_and!; by apply add_mul_zero. Qed.

Lemma stage_lookup (i : Integrator) (k : float)
    (ps0 ps : gmap string (list Particle)) (name : string) :
  stage i k ps0 ps !! name
  = (λ parts, match steppers i !! name, ps0 !! name with
              | Some st, Some parts0 => zip_with (advance st k) parts0 parts
              | _, _ => parts
              end) <$> ps !! name.
Proof. unfold stage. rewrite map_lookup_imap. by destruct (ps !! name). Qed.

Lemma stage_dom (i : Integrator) (k : float) (ps0 ps : gmap string (list Particle)) :
  dom (stage i k ps0 ps) = dom ps.
Proof.
  apply set_eq. intros name. rewrite !elem_of_dom, stage_lookup.
  apply fmap_is_Some.
Qed.

Lemma fmap_const_inv {A A' C} (f : A → C) (c : C) (l' : list A) (l : list A') :
  f <$> l' = (λ _, c) <$> l → length l' = length l ∧ Forall (λ x, f x = c) l'.
Proof.
  revert l. induction l' as [|x l' IH]; intros [|y l]; simpl; try discriminate.
  - by split.
  - intros [= Hx Hl]. destruct (IH _ Hl) as [Hlen Hall].
    split; [by rewrite Hlen | by constructor].
Qed.

(** After a pipeline evaluation the boundary particles are as many as
    before and their acceleration and position rate are zero. *)
Lemma boundary_after_pipeline (g : Globals) (ps ps' : gmap string (list Particle))
    (bd : list Particle) :
  evalp (create_equations g) ps = Some ps' →
  ps !! "boundary" = Some bd →
  ∃ bd', ps' !! "boundary" = Some bd' ∧ length bd' = length bd
         ∧ Forall (λ b, acceleration b = vzero ∧ position_rate b = vzero) bd'.
Proof.
  intros Hps' Hbd.
  destruct (eval_pipeline_boundary g ps ps' Hps') as (Hacc & Hrate & _).
  rewrite Hbd in Hacc, Hrate.
  destruct (ps' !! "boundary") as [bd'|]; [|discriminate Hacc].
  simpl in Hacc, Hrate. injection Hacc as Hacc. injection Hrate as Hrate.
  apply fmap_const_inv in Hacc as [Hlen Hacc].
  apply fmap_const_inv in Hrate as [_ Hrate].
  exists bd'. split_and!; [reflexivity | exact Hlen |].
  rewrite Forall_forall in Hacc, Hrate. apply Forall_forall. intros b Hb.
  split; [by apply Hacc | by apply Hrate].
Qed.

Lemma zip_advance_fixed (k : float) (bd l : list Particle) :
  is_finite k = true → length l = length bd →
  Forall (λ b, acceleration b = vzero ∧ position_rate b = vzero) l →
  Forall2 (λ b b', same_vec (position b') (position b)
                   ∧ same_vec (velocity b') (velocity b))
          bd (zip_with (advance WCSPHStep k) bd l).
Proof.
  intros Hk. revert l. induction bd as [|b bd IH]; intros [|d l] Hlen Hall;
    simpl in *; try discriminate; [constructor|].
  apply Forall_cons in Hall as [[Hacc Hrate] Hall].
  constructor; [|apply IH; [lia | exact Hall]].
  unfold advance. simpl. rewrite Hacc, Hrate.
  split; by apply vadd_vscale_vzero.
Qed.

(** Both schemes end with the corrector stage, run on a particle set that
    comes out of a pipeline evaluation. *)
Lemma integrate_boundary (i : Integrator) (g : Globals) (dt : float)
    (ps ps' : gmap string (list Particle)) (bd : list Particle) :
  steppers i !! "boundary" = Some WCSPHStep →
  ps !! "boundary" = Some bd →
  integrate neighbors weight gradient eos_pressure momentum_pair
            i (create_equations g) dt ps = Some ps' →
  ∃ l, length l = length bd
       ∧ Forall (λ b, acceleration b = vzero ∧ position_rate b = vzero) l
       ∧ ps' !! "boundary" = Some (zip_with (advance WCSPHStep dt) bd l).
Proof.
  intros Hst Hbd. unfold integrate.
  assert (∀ ps1 bd1, ps1 !! "boundary" = Some bd1 → length bd1 = length bd →
            ∀ ps2, evalp (create_equations g) (stage i (dt / 2) ps ps1) = Some ps2 →
            ∃ l, length l = length bd
                 ∧ Forall (λ b, acceleration b = vzero ∧ position_rate b = vzero) l
                 ∧ stage i dt ps ps2 !! "boundary"
                   = Some (zip_with (advance WCSPHStep dt) bd l)) as Hlast.
  { intros ps1 bd1 Hbd1 Hlen1 ps2 H2.
    eapply boundary_after_pipeline in H2 as (l & Hl & Hlen & Hall).
    2: { rewrite stage_lookup, Hbd1, Hst, Hbd. reflexivity. }
    exists l. rewrite length_zip_with_l_eq in Hlen by done.
    split_and!; [exact Hlen | exact Hall |].
    by rewrite stage_lookup, Hl, Hst, Hbd. }
  destruct (scheme i).
  - destruct (evalp _ (stage i (dt / 2) ps ps)) as [ps2|] eqn:H2; [|discriminate].
    simpl. intros [= <-]. by eapply Hlast.
  - destruct (evalp _ ps) as [ps1|] eqn:H1; [|discriminate]. simpl.
    destruct (evalp _ (stage i (dt / 2) ps ps1)) as [ps2|] eqn:H2; [|discriminate].
    simpl. intros [= <-].
    destruct (boundary_after_pipeline _ _ _ _ H1 Hbd) as (bd1 & Hbd1 & Hlen1 & _).
    by eapply Hlast.
Qed.

Lemma integrate_is_Some (i : Integrator) (g : Globals) (dt : float)
    (ps : gmap string (list Particle)) :
  "fluid" ∈ dom ps → "boundary" ∈ dom ps →
  is_Some (integrate neighbors weight gradient eos_pressure momentum_pair
                     i (create_equations g) dt ps).
Proof.
  intros Hf Hb. unfold integrate.
  assert (∀ ps1, dom ps1 = dom ps →
            ∃ ps2, evalp (create_equations g) ps1 = Some ps2 ∧ dom ps2 = dom ps)
    as Heval.
  { intros ps1 Hdom. unfold eval_pipeline.
    destruct (eval_groups_is_Some (create_equations g)
                (fmap (M := list) zero_accumulators <$> ps1)) as (ps2 & H2 & Hdom2).
    - apply create_equations_configured; by rewrite dom_fmap_L, Hdom.
    - exists ps2. split; [exact H2|]. by rewrite Hdom2, dom_fmap_L. }
  destruct (scheme i).
  - destruct (Heval (stage i (dt / 2) ps ps)) as (ps2 & -> & _); [apply stage_dom|].
    by eexists.
  - destruct (Heval ps eq_refl) as (ps1 & -> & Hdom1). simpl.
    destruct (Heval (stage i (dt / 2) ps ps1)) as (ps2 & -> & _).
    { by rewrite stage_dom. }
    by eexists.
Qed.

(** C7, amended: for both integrator variants the 'boundary' species is
    given the same stepper as the 'fluid' species, a [WCSPHStep], which steps
    position, velocity and density. A step of finite [dt] still leaves every
    boundary particle with the position and the velocity it had, as numbers:
    the rates the stepper adds are the zero acceleration and the zero position
    rate the pipeline leaves on the boundary. *)
Theorem boundary_shares_fluid_stepper (options : Options) :
  steppers (integrator (create_solver options)) !! "boundary"
  = steppers (integrator (create_solver options)) !! "fluid"
  ∧ steppers (integrator (create_solver options)) !! "fluid" = Some WCSPHStep
  ∧ stepped_fields WCSPHStep = [Position; Velocity; Density]
  ∧ ∀ (g : Globals) (dt : float) (ps : gmap string (list Particle)) (bd : list Particle),
      is_finite dt = true → "fluid" ∈ dom ps → ps !! "boundary" = Some bd →
      ∃ ps' bd',
        integrate neighbors weight gradient eos_pressure momentum_pair
                  (integrator (create_solver options)) (create_equations g) dt ps
        = Some ps'
        ∧ ps' !! "boundary" = Some bd'
        ∧ Forall2 (λ b b', same_vec (position b') (position b)
                           ∧ same_vec (velocity b') (velocity b)) bd bd'.
Proof.
  assert (steppers (integrator (create_solver options)) !! "boundary" = Some WCSPHStep)
    as Hst by (by destruct options as [[]]).
  split_and!; try (by destruct options as [[]]).
  intros g dt ps bd Hdt Hf Hbd.
  destruct (integrate_is_Some (integrator (create_solver options)) g dt ps Hf)
    as [ps' Hps']; [apply elem_of_dom; by eexists|].
  destruct (integrate_boundary _ _ _ _ _ _ Hst Hbd Hps') as (l & Hlen & Hall & Hl).
  exists ps', (zip_with (advance WCSPHStep dt) bd l).
  split_and!; [exact Hps' | exact Hl |]. by apply zip_advance_fixed.
Qed.

End EvaluationFacts.

(** ** The evaluation theorems on small particle sets

    A fluid particle moving along x next to particles at rest; every
    particle of a source species counts as a neighbour, the kernel gradient
    is the displacement itself, and every pair adds (1, 1, 1) to a momentum
    equation's acceleration. *)

Lemma continuity_sums_over_sources_witness :
  let nb := λ (src : list Particle) (_ : Particle), src in
  let w := λ (_ _ : float), 1%float in
  let gr := λ (r : vec) (_ : float), r in
  let eos := λ (_ : EquationClass) (_ : gmap string Value) (rho : float), rho in
  let mp := λ (_ : gmap string Value) (_ _ : Particle), Vec 1 1 1 in
  let g := {| H := 0.0225; B := 163542.85; gamma := 7; eps := 0.5; rho0 := 1000;
              alpha := 0.01; beta := 0; c0 := 33.83 |}%float in
  let mk := λ (x u m : float),
      {| position := Vec x 0 0; velocity := Vec u 0 0; density := 1000;
         pressure := 0; mass := m; smoothing_length := 0.1; density_rate := 0;
         acceleration := vzero; position_rate := vzero |}%float in
  let fl := [mk 0 1 1; mk 1 0 1]%float in
  let bd := [mk (-2) 0 2]%float in
  let ps : gmap string (list Particle) := list_to_map [("fluid", fl); ("boundary", bd)] in
  ∃ (ef eb : Equation) (psf psb : gmap string (list Particle)),
    filter (has_class ContinuityEquation) (all_equations (create_equations g)) = [ef; eb]
    ∧ eval_equation nb w gr eos mp ef ps = Some psf
    ∧ eval_equation nb w gr eos mp eb ps = Some psb
    ∧ fmap (M := list) density_rate <$> psf !! "fluid" = Some [3; -1]%float
    ∧ fmap (M := list) density_rate <$> psb !! "boundary" = Some [2]%float.
Proof.
  intros nb w gr eos mp g mk fl bd ps.
  destruct (continuity_sums_over_sources nb w gr eos mp g ps fl bd eq_refl eq_refl)
    as (ef & eb & Hfilter & _ & _ & _ & _ & Hef & Heb).
  do 4 eexists. split_and!; [exact Hfilter | exact Hef | exact Heb | |].
  - vm_compute. reflexivity.
  - vm_compute. reflexivity.
Defined.

Lemma boundary_rates_stay_zero_witness :
  let nb := λ (src : list Particle) (_ : Particle), src in
  let w := λ (_ _ : float), 1%float in
  let gr := λ (r : vec) (_ : float), r in
  let eos := λ (_ : EquationClass) (_ : gmap string Value) (rho : float),
      (rho - 1000)%float in
  let mp := λ (_ : gmap string Value) (_ _ : Particle), Vec 1 1 1 in
  let g := {| H := 0.0225; B := 163542.85; gamma := 7; eps := 0.5; rho0 := 1000;
              alpha := 0.01; beta := 0; c0 := 33.83 |}%float in
  let mk := λ (x u rho : float),
      {| position := Vec x 0 0; velocity := Vec u 0 0; density := rho;
         pressure := 0; mass := 1; smoothing_length := 0.1; density_rate := 5;
         acceleration := Vec 9 9 9; position_rate := Vec 9 9 9 |}%float in
  let ps : gmap string (list Particle) :=
    list_to_map [("fluid", [mk 0 1 1001]); ("boundary", [mk 0.5 0 1002])]%float in
  ∃ ps' : gmap string (list Particle),
    eval_pipeline nb w gr eos mp (create_equations g) ps = Some ps'
    ∧ fmap (M := list) acceleration <$> ps' !! "boundary" = Some [vzero]
    ∧ fmap (M := list) position_rate <$> ps' !! "boundary" = Some [vzero]
    ∧ fmap (M := list) pressure <$> ps' !! "boundary" = Some [2%float]
    ∧ fmap (M := list) density_rate <$> ps' !! "boundary" = Some [(-0.5)%float]
    ∧ fmap (M := list) acceleration <$> ps' !! "fluid" = Some [Vec 2 2 (-7.8100000000000005)].
Proof.
  intros nb w gr eos mp g mk ps.
  assert ("fluid" ∈ dom ps) as Hf by (apply elem_of_dom; by eexists).
  assert ("boundary" ∈ dom ps) as Hb by (apply elem_of_dom; by eexists).
  destruct (boundary_rates_stay_zero nb w gr eos mp g ps Hf Hb)
    as (_ & ps' & Heq & Hacc & Hrate & _).
  exists ps'. split; [exact Heq|].
  split; [rewrite Hacc; reflexivity|].
  split; [rewrite Hrate; reflexivity|].
  clear Hacc Hrate. vm_compute in Heq. injection Heq as <-.
  split_and!; vm_compute; reflexivity.
Defined.

Lemma boundary_shares_fluid_stepper_witness :
  let nb := λ (src : list Particle) (_ : Particle), src in
  let w := λ (_ _ : float), 1%float in
  let gr := λ (r : vec) (_ : float), r in
  let eos := λ (_ : EquationClass) (_ : gmap string Value) (rho : float),
      (rho - 1000)%float in
  let mp := λ (_ : gmap string Value) (_ _ : Particle), Vec 1 1 1 in
  let g := {| H := 0.0225; B := 163542.85; gamma := 7; eps := 0.5; rho0 := 1000;
              alpha := 0.01; beta := 0; c0 := 33.83 |}%float in
  let mk := λ (x u rho : float),
      {| position := Vec x 0 0; velocity := Vec u 0 0; density := rho;
         pressure := 0; mass := 1; smoothing_length := 0.1; density_rate := 5;
         acceleration := Vec 9 9 9; position_rate := Vec 9 9 9 |}%float in
  let bd := [mk 0.5 0 1002]%float in
  let ps : gmap string (list Particle) :=
    list_to_map [("fluid", [mk 0 1 1001]%float); ("boundary", bd)] in
  ∃ (ps' : gmap string (list Particle)) (bd' : list Particle),
    integrate nb w gr eos mp (integrator (create_solver {| test := true |}))
              (create_equations g) 1e-5 ps = Some ps'
    ∧ ps' !! "boundary" = Some bd'
    ∧ Forall2 (λ b b', same_vec (position b') (position b)
                       ∧ same_vec (velocity b') (velocity b)) bd bd'
    ∧ fmap (M := list) (λ b, (position b, velocity b, density b)) <$> ps' !! "boundary"
      = Some [(Vec 0.5 0 0, Vec 0 0 0, 1001.999995)]%float
    ∧ fmap (M := list) (λ b, (position b, velocity b, density b)) <$> ps' !! "fluid"
      = Some [(Vec 1.0000450000000002e-05 4.5000000000000005e-10 4.5000000000000005e-10,
               Vec 1.0000199999999999 2.0000000000000002e-05 (-7.8100000000000015e-05),
               1000.999995)]%float.
Proof.
  intros nb w gr eos mp g mk bd ps.
  assert ("fluid" ∈ dom ps) as Hf by (apply elem_of_dom; by eexists).
  destruct (proj2 (proj2 (proj2
              (boundary_shares_fluid_stepper nb w gr eos mp {| test := true |})))
              g 1e-5%float ps bd eq_refl Hf eq_refl)
    as (ps' & bd' & Hstep & Hbd' & Hfixed).
  exists ps', bd'. split_and!; [exact Hstep | exact Hbd' | exact Hfixed | |].
  all: clear Hbd' Hfixed; vm_compute in Hstep; injection Hstep as <-.
  all: vm_compute.
  all: reflexivity.
Defined.

(** * Further properties of the module *)

(** ** Loading the module *)

(** The three ways loading ends: too few entries, a zero reference density,
    or the constants. *)
Lemma module_init_cases (indat : list float) :
  ((length indat < 17)%nat ∧ module_init indat = inl IndexError)
  ∨ ∃ h b ga ep r al,
      (17 ≤ length indat)%nat
      ∧ indat !! 10%nat = Some h ∧ indat !! 11%nat = Some b
      ∧ indat !! 12%nat = Some ga ∧ indat !! 14%nat = Some ep
      ∧ indat !! 15%nat = Some r ∧ indat !! 16%nat = Some al
      ∧ module_init indat
        = if (r =? 0)%float then inl ZeroDivisionError
          else inr {| H := h; B := b; gamma := ga; eps := ep; rho0 := r;
                      alpha := al; beta := 0; c0 := sqrt (b * ga / r) |}.
Proof.
  unfold module_init, getitem, truediv.
  destruct (indat !! 16%nat) as [al|] eqn:E16.
  - apply lookup_lt_Some in E16 as Hlen.
    destruct (lookup_lt_is_Some_2 indat 10) as [h E10]; [lia|].
    destruct (lookup_lt_is_Some_2 indat 11) as [b E11]; [lia|].
    destruct (lookup_lt_is_Some_2 indat 12) as [ga E12]; [lia|].
    destruct (lookup_lt_is_Some_2 indat 14) as [ep E14]; [lia|].
    destruct (lookup_lt_is_Some_2 indat 15) as [r E15]; [lia|].
    right. exists h, b, ga, ep, r, al. rewrite E10, E11, E12, E14, E15.
    split_and!; try done; try lia.
    cbn. by destruct (r =? 0)%float.
  - apply lookup_ge_None in E16 as Hlen. left. split; [lia|].
    destruct (indat !! 10%nat); [|reflexivity].
    destruct (indat !! 11%nat); [|reflexivity].
    destruct (indat !! 12%nat); [|reflexivity].
    destruct (indat !! 14%nat); [|reflexivity].
    destruct (indat !! 15%nat); reflexivity.
Qed.

(** On a one-dimensional array: IndexError exactly when it has fewer than
    seventeen entries. *)
Lemma module_init_IndexError (indat : list float) :
  module_init indat = inl IndexError ↔ (length indat < 17)%nat.
Proof.
  destruct (module_init_cases indat)
    as [[Hlen ->]|(h & b & ga & ep & r & al & Hlen & _ & _ & _ & _ & _ & _ & ->)].
  - done.
  - split; [|lia]. by destruct (r =? 0)%float.
Qed.

(** On a one-dimensional array: ZeroDivisionError exactly when it has its
    seventeen entries and the reference density, entry 15, compares equal to
    zero (0.0 or -0.0; a NaN does not). *)
Lemma module_init_ZeroDivisionError (indat : list float) :
  module_init indat = inl ZeroDivisionError
  ↔ (17 ≤ length indat)%nat ∧ ∃ r, indat !! 15%nat = Some r ∧ (r =? 0)%float = true.
Proof.
  destruct (module_init_cases indat)
    as [[Hlen ->]|(h & b & ga & ep & r & al & Hlen & _ & _ & _ & _ & Hr & _ & ->)].
  - split; [done | lia].
  - split.
    + destruct (r =? 0)%float eqn:Hz; [|done]. intros _. split; [lia|]. by exists r.
    + intros (_ & r' & Hr' & Hz). rewrite Hr in Hr'. injection Hr' as <-.
      by rewrite Hz.
Qed.

(** On a one-dimensional array: the constants exactly when it has seventeen
    entries and a reference density that does not compare equal to zero. *)
Lemma module_init_loads (indat : list float) :
  (∃ g, module_init indat = inr g)
  ↔ (17 ≤ length indat)%nat ∧ ∃ r, indat !! 15%nat = Some r ∧ (r =? 0)%float = false.
Proof.
  destruct (module_init_cases indat)
    as [[Hlen ->]|(h & b & ga & ep & r & al & Hlen & _ & _ & _ & _ & Hr & _ & ->)].
  - split; [by intros [g ?] | lia].
  - split.
    + destruct (r =? 0)%float eqn:Hz; [by intros [g ?]|].
      intros _. split; [lia|]. by exists r.
    + intros (_ & r' & Hr' & Hz). rewrite Hr in Hr'. injection Hr' as <-.
      rewrite Hz. by eexists.
Qed.

(** *** Any shape of array *)

Lemma module_load_Array2 (rows : list (float * float * list float)) :
  module_load (Array2 rows)
  = if decide (length rows < 11)%nat then inl IndexError else inl TypeError.
Proof.
  unfold module_load, float_item.
  destruct (rows !! 10%nat) as [row|] eqn:E10.
  - apply lookup_lt_Some in E10. rewrite decide_False by lia. reflexivity.
  - apply lookup_ge_None in E10. rewrite decide_True by lia. reflexivity.
Qed.

(** X1: loading raises IndexError exactly when the array has no dimension,
    or one dimension and fewer than seventeen entries, or two dimensions and
    fewer than eleven rows; it raises TypeError exactly when the array has
    two dimensions and at least eleven rows. *)
Theorem module_load_read_errors (indat : ndarray) :
  (module_load indat = inl IndexError
   ↔ match indat with
     | Array0 _ => True
     | Array1 xs => (length xs < 17)%nat
     | Array2 rows => (length rows < 11)%nat
     end)
  ∧ (module_load indat = inl TypeError
     ↔ ∃ rows, indat = Array2 rows ∧ (11 ≤ length rows)%nat).
Proof.
  destruct indat as [x|xs|rows].
  - split; [done|]. split; [discriminate | by intros (rows & ? & _)].
  - change (module_load (Array1 xs)) with (module_init xs).
    split; [apply module_init_IndexError|].
    split; [|by intros (rows & ? & _)].
    destruct (module_init_cases xs)
      as [[_ ->]|(h & b & ga & ep & r & al & _ & _ & _ & _ & _ & _ & _ & ->)];
      [discriminate|]. by destruct (r =? 0)%float.
  - rewrite module_load_Array2. destruct (decide (length rows < 11)%nat) as [Hlt|Hge].
    + split; [done|]. split; [discriminate|].
      intros (rows' & [= <-] & Hlen). lia.
    + split; [split; [discriminate | lia]|].
      split; [|done]. intros _. exists rows. split; [reflexivity | lia].
Qed.

(** X2: loading raises ZeroDivisionError exactly when the array has one
    dimension, at least seventeen entries, and a reference density, entry
    15, that compares equal to zero (0.0 or -0.0; a NaN does not). *)
Theorem module_load_ZeroDivisionError (indat : ndarray) :
  module_load indat = inl ZeroDivisionError
  ↔ ∃ xs r, indat = Array1 xs ∧ (17 ≤ length xs)%nat
            ∧ xs !! 15%nat = Some r ∧ (r =? 0)%float = true.
Proof.
  destruct indat as [x|xs|rows].
  - split; [discriminate | by intros (xs & r & ? & _)].
  - change (module_load (Array1 xs)) with (module_init xs).
    rewrite module_init_ZeroDivisionError. split.
    + intros (Hlen & r & Hr & Hz). by exists xs, r.
    + intros (xs' & r & [= <-] & Hlen & Hr & Hz). split; [exact Hlen|]. by exists r.
  - rewrite module_load_Array2. split; [|by intros (xs & r & ? & _)].
    by destruct (decide _).
Qed.

(** X3: the module loads exactly when the array has one dimension, at least
    seventeen entries, and a reference density that does not compare equal
    to zero; the constants are then those of [module_init] on its entries.
    Nothing else is checked: a NaN, an infinity or a negative entry loads. *)
Theorem module_load_loads (indat : ndarray) :
  ((∃ g, module_load indat = inr g)
   ↔ ∃ xs r, indat = Array1 xs ∧ (17 ≤ length xs)%nat
             ∧ xs !! 15%nat = Some r ∧ (r =? 0)%float = false)
  ∧ ∀ g, module_load indat = inr g → ∃ xs, indat = Array1 xs ∧ module_init xs = inr g.
Proof.
  destruct indat as [x|xs|rows].
  - split; [|discriminate]. split; [by intros [g ?] | by intros (xs & r & ? & _)].
  - change (module_load (Array1 xs)) with (module_init xs). split.
    + rewrite module_init_loads. split.
      * intros (Hlen & r & Hr & Hz). by exists xs, r.
      * intros (xs' & r & [= <-] & Hlen & Hr & Hz). split; [exact Hlen|]. by exists r.
    + intros g Hg. by exists xs.
  - rewrite module_load_Array2. split.
    + split; [|by intros (xs & r & ? & _)]. intros [g Hg]. by destruct (decide _).
    + intros g Hg. by destruct (decide _).
Qed.

(** A file of two rows of seventeen numbers, one of twelve rows of two, and
    one of seventeen rows of two with a density of 1000 in the first column:
    none of them loads. *)
Example module_load_two_dimensions :
  module_load (Array2 (replicate 2 (0, 0, replicate 15 0)))%float = inl IndexError
  ∧ module_load (Array2 (replicate 12 (0, 0, [])))%float = inl TypeError
  ∧ module_load (Array2 (replicate 17 (1000, 0, [])))%float = inl TypeError.
Proof. split_and!; reflexivity. Qed.

(** ** The sound speed *)

Lemma sqrt_not_negative (q : float) : (sqrt q <? 0)%float = false.
Proof.
  rewrite ltb_spec, sqrt_spec. change (Prim2SF 0) with (S754_zero false).
  unfold SF64sqrt, SFsqrt.
  destruct (Prim2SF q) as [[]|[]| |[] mq eq]; try reflexivity.
  destruct (SFsqrt_core_binary prec emax (Z.pos mq) eq) as [[mz ez] lz].
  unfold binary_round_aux.
  destruct (shr_fexp prec emax mz ez lz) as [mrs e'].
  destruct (shr_fexp prec emax _ e' loc_Exact) as [mrs' e''].
  destruct (shr_m mrs'); try reflexivity.
  by destruct (_ <=? _)%Z.
Qed.

Lemma sqrt_of_negative (q : float) :
  (q <? 0)%float = true → is_nan (sqrt q) = true.
Proof.
  unfold is_nan. rewrite ltb_spec, FloatAxioms.eqb_spec, sqrt_spec.
  change (Prim2SF 0) with (S754_zero false). unfold SF64sqrt, SFsqrt.
  destruct (Prim2SF q) as [[]|[]| |[] mq eq]; intros Hq;
    first [reflexivity | discriminate Hq].
Qed.

(** X4: the sound speed of a loaded module is never a negative number. *)
Theorem c0_not_negative (indat : list float) (g : Globals) :
  module_init indat = inr g → (c0 g <? 0)%float = false.
Proof.
  intros Hg. destruct (module_init_inr _ _ Hg) as (_ & _ & _ & _ & _ & _ & _ & _ & ->).
  apply sqrt_not_negative.
Qed.

Lemma c0_not_negative_witness :
  let indat := [0; 0; 0; 0; 0; 0; 0; 0; 0; 0;
                0.0225; 163542.85; 7; 0; 0.5; 1000; 0.01]%float in
  ∃ g, module_init indat = inr g ∧ (c0 g <? 0)%float = false.
Proof.
  intros indat. eexists. split; [reflexivity|].
  apply (c0_not_negative indat). reflexivity.
Defined.

(** X5: a negative B·gamma/rho0 does not stop the module from loading: the
    sound speed is then a NaN, and that NaN is the [c0] of every equation
    that takes one. *)
Theorem c0_nan_of_negative_ratio (indat : list float) (g : Globals) :
  module_init indat = inr g →
  (B g * gamma g / rho0 g <? 0)%float = true →
  is_nan (c0 g) = true
  ∧ Forall (λ e, ∀ v, kwargs e !! "c0" = Some v → v = VFloat nan)
           (all_equations (create_equations g)).
Proof.
  intros Hg Hneg.
  destruct (module_init_inr _ _ Hg) as (_ & _ & _ & _ & _ & _ & _ & _ & Hc).
  assert (is_nan (c0 g) = true) as Hnan by (rewrite Hc; by apply sqrt_of_negative).
  split; [exact Hnan|].
  assert (c0 g = nan) as <-.
  { apply Prim2SF_inj. revert Hnan. unfold is_nan.
    rewrite FloatAxioms.eqb_spec. change (Prim2SF nan) with S754_nan.
    destruct (Prim2SF (c0 g)) as [[]|[]| |[] mc ec]; try discriminate; try reflexivity.
    all: unfold SFeqb, SFcompare; rewrite Z.compare_refl, Pos.compare_refl;
      discriminate. }
  apply c0_of_equations.
Qed.

Lemma c0_nan_of_negative_ratio_witness :
  let indat := [0; 0; 0; 0; 0; 0; 0; 0; 0; 0;
                0.0225; -163542.85; 7; 0; 0.5; 1000; 0.01]%float in
  ∃ g, module_init indat = inr g
       ∧ (B g * gamma g / rho0 g <? 0)%float = true
       ∧ is_nan (c0 g) = true
       ∧ Forall (λ e, ∀ v, kwargs e !! "c0" = Some v → v = VFloat nan)
                (all_equations (create_equations g)).
Proof.
  intros indat.
  pose (g := {| H := 0.0225; B := -163542.85; gamma := 7; eps := 0.5; rho0 := 1000;
                alpha := 0.01; beta := 0; c0 := nan |}%float).
  exists g. split; [reflexivity|]. split; [reflexivity|].
  exact (c0_nan_of_negative_ratio indat g eq_refl eq_refl).
Defined.

(** ** What the module reads *)

(** X6: loading reads entries 10, 11, 12, 14, 15 and 16 of INDAT and nothing
    else: two arrays that agree there load alike, or fail alike, whatever
    their other entries and their lengths. *)
Theorem module_init_reads_six_entries (indat indat' : list float) :
  Forall (λ i, indat !! i = indat' !! i) [10; 11; 12; 14; 15; 16]%nat →
  module_init indat = module_init indat'.
Proof.
  intros Hsame. rewrite !Forall_cons in Hsame.
  destruct Hsame as (E10 & E11 & E12 & E14 & E15 & E16 & _).
  unfold module_init, getitem. by rewrite E10, E11, E12, E14, E15, E16.
Qed.

Lemma module_init_reads_six_entries_witness :
  let indat := [0; 0; 0; 0; 0; 0; 0; 0; 0; 0;
                0.0225; 163542.85; 7; 0; 0.5; 1000; 0.01]%float in
  let indat' := [1; 2; 3; 4; 5; 6; 7; 8; 9; 10;
                 0.0225; 163542.85; 7; 42; 0.5; 1000; 0.01; 17; 18]%float in
  module_init indat = module_init indat'.
Proof.
  intros indat indat'. apply module_init_reads_six_entries.
  repeat constructor.
Defined.

(** X7: the smoothing length H, entry 10, is read but goes nowhere: two
    loaded modules whose INDAT agree on entries 11, 12, 14, 15 and 16 build
    the same pipeline. *)
Theorem create_equations_ignores_H (indat indat' : list float) (g g' : Globals) :
  module_init indat = inr g → module_init indat' = inr g' →
  Forall (λ i, indat !! i = indat' !! i) [11; 12; 14; 15; 16]%nat →
  create_equations g = create_equations g'.
Proof.
  intros Hg Hg' Hsame. rewrite !Forall_cons in Hsame.
  destruct Hsame as (E11 & E12 & E14 & E15 & E16 & _).
  destruct (module_init_inr _ _ Hg) as (_ & HB & Hga & Hep & Hr & Hal & Hbe & _ & Hc).
  destruct (module_init_inr _ _ Hg')
    as (_ & HB' & Hga' & Hep' & Hr' & Hal' & Hbe' & _ & Hc').
  assert (B g = B g') as EB by congruence.
  assert (gamma g = gamma g') as Ega by congruence.
  assert (eps g = eps g') as Eep by congruence.
  assert (rho0 g = rho0 g') as Er by congruence.
  assert (alpha g = alpha g') as Eal by congruence.
  assert (beta g = beta g') as Ebe by congruence.
  assert (c0 g = c0 g') as Ec by (rewrite Hc, Hc'; congruence).
  unfold create_equations. by rewrite Ega, Eep, Er, Eal, Ebe, Ec.
Qed.

Lemma create_equations_ignores_H_witness :
  let indat := [0; 0; 0; 0; 0; 0; 0; 0; 0; 0;
                0.0225; 163542.85; 7; 0; 0.5; 1000; 0.01]%float in
  let indat' := [0; 0; 0; 0; 0; 0; 0; 0; 0; 0;
                 0.05; 163542.85; 7; 0; 0.5; 1000; 0.01]%float in
  ∃ g g', module_init indat = inr g ∧ module_init indat' = inr g'
          ∧ H g ≠ H g' ∧ create_equations g = create_equations g'.
Proof.
  intros indat indat'. do 2 eexists.
  split; [reflexivity|]. split; [reflexivity|]. split; [discriminate|].
  apply (create_equations_ignores_H indat indat'); try reflexivity.
  repeat constructor.
Defined.

(** ** The solver and the pipeline together *)

Lemma steppers_is_Some (options : Options) (s : string) :
  is_Some (steppers (integrator (create_solver options)) !! s)
  ↔ s = "fluid" ∨ s = "boundary".
Proof.
  assert (steppers (integrator (create_solver options))
          = <["fluid" := WCSPHStep]> (<["boundary" := WCSPHStep]> ∅)) as ->
    by (by destruct options as [[]]).
  rewrite !lookup_insert_is_Some, lookup_empty. split.
  - intros [Hs|[_ [Hs|[_ Hs]]]]; [by left | by right | by destruct Hs].
  - intros [->| ->]; [by left | right; split; [discriminate | by left]].
Qed.

(** X8: every species the pipeline names, as the destination or as a source
    of an equation, is a species the integrator of [create_solver] has a
    stepper for, with [--test] and without. *)
Theorem pipeline_species_have_steppers (options : Options) (g : Globals) :
  Forall (λ e, is_Some (steppers (integrator (create_solver options)) !! dest e)
               ∧ Forall (λ s, is_Some (steppers (integrator (create_solver options)) !! s))
                        (default [] (sources e)))
         (all_equations (create_equations g)).
Proof.
  each_equation; (split; [|repeat constructor]); apply steppers_is_Some; auto.
Qed.

(** X9: every species that has a stepper is the destination of exactly one
    equation of state and of exactly one continuity equation, so its pressure
    and its density rate are each computed once per pipeline evaluation. *)
Theorem stepped_species_have_eos_and_continuity
    (options : Options) (g : Globals) (s : string) :
  is_Some (steppers (integrator (create_solver options)) !! s) →
  length (filter (λ e, is_eos e ∧ dest e = s) (all_equations (create_equations g)))
  = 1%nat
  ∧ length (filter (λ e, cls e = ContinuityEquation ∧ dest e = s)
                   (all_equations (create_equations g)))
    = 1%nat.
Proof.
  intros [-> | ->]%steppers_is_Some; split; reflexivity.
Qed.

Lemma stepped_species_have_eos_and_continuity_witness :
  let g := {| H := 0.0225; B := 163542.85; gamma := 7; eps := 0.5; rho0 := 1000;
              alpha := 0.01; beta := 0; c0 := 33.83 |}%float in
  cls <$> filter (λ e, is_eos e ∧ dest e = "boundary")
                 (all_equations (create_equations g))
  = [TaitEOSHGCorrection]
  ∧ length (filter (λ e, is_eos e ∧ dest e = "boundary")
                   (all_equations (create_equations g))) = 1%nat
  ∧ length (filter (λ e, cls e = ContinuityEquation ∧ dest e = "boundary")
                   (all_equations (create_equations g))) = 1%nat.
Proof.
  intros g. split; [reflexivity|].
  apply (stepped_species_have_eos_and_continuity {| test := false |} g "boundary").
  by eexists.
Defined.

(** X10: [--test] changes the integrator scheme and the adaptive flag and
    nothing else: the dimension, the kernel, tf, dt, the damping steps and
    the steppers are the same with and without it, and the kernel is the
    cubic spline of the solver's own dimension. *)
Theorem create_solver_test_only_scheme (options options' : Options) :
  solver_dim (create_solver options) = solver_dim (create_solver options')
  ∧ kernel (create_solver options) = kernel (create_solver options')
  ∧ solver_tf (create_solver options) = solver_tf (create_solver options')
  ∧ solver_dt (create_solver options) = solver_dt (create_solver options')
  ∧ n_damp (create_solver options) = n_damp (create_solver options')
  ∧ steppers (integrator (create_solver options))
    = steppers (integrator (create_solver options'))
  ∧ kernel (create_solver options) = CubicSpline (solver_dim (create_solver options))
  ∧ (adaptive_timestep (create_solver options) = true
     ↔ scheme (integrator (create_solver options)) = EPEC).
Proof.
  destruct options as [[]], options' as [[]]; split_and!; try reflexivity.
  all: split; intros Hx; first [discriminate Hx | reflexivity].
Qed.

(** X11: nothing is counted twice: no equation lists a source species
    twice, and no two equations of the pipeline have the same class and the
    same destination. *)
Theorem pipeline_counts_once (g : Globals) :
  Forall (λ e, NoDup (default [] (sources e))) (all_equations (create_equations g))
  ∧ NoDup ((λ e, (cls e, dest e)) <$> all_equations (create_equations g)).
Proof.
  split.
  - each_equation; apply (bool_decide_unpack _); reflexivity.
  - apply (bool_decide_unpack _). reflexivity.
Qed.
